(** * Extraction of court-ruling metadata: a shallow embedding of
      [extract_data.py] and the properties of its specification.

    Python strings are sequences of Unicode code points, and the program
    depends on that (accent stripping, the character class [À-Ý], the
    vocabulary entries 'RÉU' and 'ITAÚ UNIBANCO').  A string is therefore a
    list of code points, not a list of bytes.  The functions of the Python
    library that consult the Unicode character database are taken from a
    [UnicodeData] structure; the regular expressions are run by a
    backtracking matcher with the priorities of Python's [re]. *)

From Stdlib Require Import String Ascii List NArith ZArith Arith Bool Lia Zify.
Import ListNotations.

(** ** Strings *)

Definition char := N.
Definition str := list char.

Fixpoint string_bytes (s : string) : list N :=
  match s with
  | EmptyString => []
  | String a r => N_of_ascii a :: string_bytes r
  end.

(** Source literals are UTF-8; [u] reads a literal as its code points. *)
Fixpoint utf8_decode (bs : list N) : str :=
  match bs with
  | [] => []
  | b :: r =>
    if (b <? 128)%N then b :: utf8_decode r
    else match r with
      | [] => [b]
      | b2 :: r2 =>
        if (b <? 224)%N then ((b - 192) * 64 + (b2 - 128))%N :: utf8_decode r2
        else match r2 with
          | [] => [b]
          | b3 :: r3 =>
            if (b <? 240)%N
            then ((b - 224) * 4096 + (b2 - 128) * 64 + (b3 - 128))%N :: utf8_decode r3
            else match r3 with
              | [] => [b]
              | b4 :: r4 =>
                ((b - 240) * 262144 + (b2 - 128) * 4096 + (b3 - 128) * 64 + (b4 - 128))%N
                  :: utf8_decode r4
              end
          end
      end
  end.

Definition u (s : string) : str := utf8_decode (string_bytes s).

Arguments u s%_string.

Fixpoint str_eqb (a b : str) : bool :=
  match a, b with
  | [], [] => true
  | x :: a', y :: b' => (x =? y)%N && str_eqb a' b'
  | _, _ => false
  end.

Fixpoint startswith (p s : str) : bool :=
  match p, s with
  | [], _ => true
  | x :: p', y :: s' => (x =? y)%N && startswith p' s'
  | _ :: _, [] => false
  end.

(** [sub in s] *)
Fixpoint contains (sub s : str) : bool :=
  startswith sub s ||
  match s with
  | [] => false
  | _ :: s' => contains sub s'
  end.

(** Truth value of a string, and of an optional string. *)
Definition nonempty (s : str) : bool :=
  match s with [] => false | _ => true end.

Definition truthy (o : option str) : bool :=
  match o with Some s => nonempty s | None => false end.

(** [str.isspace] of one character (Py_UNICODE_ISSPACE), which is also the
    [\s] of [re] and what [strip] and [split] remove. *)
Definition isspace (c : char) : bool :=
  ((9 <=? c) && (c <=? 13) || (28 <=? c) && (c <=? 32) || (c =? 133) || (c =? 160)
   || (c =? 5760) || (8192 <=? c) && (c <=? 8202) || (c =? 8232) || (c =? 8233)
   || (c =? 8239) || (c =? 8287) || (c =? 12288))%N.

(** Line boundaries of [str.splitlines]. *)
Definition is_linebreak (c : char) : bool :=
  ((10 <=? c) && (c <=? 13) || (28 <=? c) && (c <=? 30) || (c =? 133)
   || (c =? 8232) || (c =? 8233))%N.

Fixpoint lstrip (s : str) : str :=
  match s with
  | c :: r => if isspace c then lstrip r else s
  | [] => []
  end.

Definition rstrip (s : str) : str := rev (lstrip (rev s)).

Definition strip (s : str) : str := rstrip (lstrip s).

(** [s.split()]: the maximal runs of non-whitespace; [cur] is the run being
    read, reversed. *)
Fixpoint split_ws_from (cur : str) (s : str) : list str :=
  match s with
  | [] => match cur with [] => [] | _ => [rev cur] end
  | c :: r =>
    if isspace c
    then match cur with [] => split_ws_from [] r | _ => rev cur :: split_ws_from [] r end
    else split_ws_from (c :: cur) r
  end.

Definition split_ws (s : str) : list str := split_ws_from [] s.

(** [s.split(sep)] for a one-character separator. *)
Fixpoint split_on_from (sep : char) (cur : str) (s : str) : list str :=
  match s with
  | [] => [rev cur]
  | c :: r =>
    if (c =? sep)%N then rev cur :: split_on_from sep [] r
    else split_on_from sep (c :: cur) r
  end.

Definition split_on (sep : char) (s : str) : list str := split_on_from sep [] s.

Fixpoint splitlines_from (cur : str) (s : str) : list str :=
  match s with
  | [] => match cur with [] => [] | _ => [rev cur] end
  | c :: r =>
    if (c =? 13)%N then
      match r with
      | c2 :: r2 =>
        if (c2 =? 10)%N then rev cur :: splitlines_from [] r2
        else rev cur :: splitlines_from [] r
      | [] => [rev cur]
      end
    else if is_linebreak c then rev cur :: splitlines_from [] r
    else splitlines_from (c :: cur) r
  end.

Definition splitlines (s : str) : list str := splitlines_from [] s.

(** [sep.join(l)] *)
Fixpoint join (sep : str) (l : list str) : str :=
  match l with
  | [] => []
  | [x] => x
  | x :: r => x ++ sep ++ join sep r
  end.

(** [s[a:b]] for [0 <= a], and [s[-n:]]. *)
Definition slice (a b : nat) (s : str) : str := firstn (b - a) (skipn a s).

Definition last_chars (n : nat) (s : str) : str := skipn (length s - n) s.

(** ** Dictionaries

    A Python [dict] keeps its keys in insertion order, and the program
    iterates over two of them; an assignment to a key already present keeps
    its place. *)

Definition dict (V : Type) := list (str * V).

Fixpoint dict_get {V} (k : str) (d : dict V) : option V :=
  match d with
  | [] => None
  | (k', v) :: r => if str_eqb k k' then Some v else dict_get k r
  end.

Definition dict_mem {V} (k : str) (d : dict V) : bool :=
  match dict_get k d with Some _ => true | None => false end.

Fixpoint dict_set {V} (k : str) (v : V) (d : dict V) : dict V :=
  match d with
  | [] => [(k, v)]
  | (k', v') :: r => if str_eqb k k' then (k', v) :: r else (k', v') :: dict_set k v r
  end.

Definition keys {V} (d : dict V) : list str := map fst d.

Definition dict_nonempty {V} (d : dict V) : bool :=
  match d with [] => false | _ => true end.

(** ** The Unicode character database

    What [unicodedata], [str.upper], [str.lower], [str.title], [int] and
    [re] read from the character database. *)

Class UnicodeData := {
  category_Mn : char -> bool;      (* unicodedata.category(ch) == 'Mn' *)
  decomposition : char -> str;     (* full canonical decomposition of ch *)
  combining : char -> N;           (* canonical combining class *)
  decimal : char -> option N;      (* value of a decimal digit (Nd) *)
  isalnum : char -> bool;          (* Py_UNICODE_ISALNUM *)
  tolower : char -> char;          (* simple lower-case mapping *)
  toupper : char -> char;          (* simple upper-case mapping *)
  upper_full : char -> str;        (* ch.upper() *)
  lower_full : char -> str;        (* ch.lower() *)
  title_full : char -> str;        (* ch.title() *)
  iscased : char -> bool           (* _PyUnicode_IsCased *)
}.

Section Library.

Context {U : UnicodeData}.

(** *** [unicodedata.normalize('NFD', s)]

    Canonical decomposition followed by the canonical ordering algorithm:
    a character of non-zero combining class moves left over the characters
    of greater class that precede it.  [place] works on the text read so
    far, reversed. *)

Fixpoint place (c : char) (before : str) : str :=
  match before with
  | h :: t =>
    if ((0 <? combining c) && (combining c <? combining h))%N
    then h :: place c t
    else c :: before
  | [] => [c]
  end.

Definition canonical_order (s : str) : str :=
  rev (fold_left (fun acc c => place c acc) s []).

Definition nfd (s : str) : str := canonical_order (flat_map decomposition s).

Definition upper (s : str) : str := flat_map upper_full s.

(** [s.lower()]; the final-sigma rule of [str.lower] needs a capital sigma,
    which no string lowered by this program contains. *)
Definition lower (s : str) : str := flat_map lower_full s.

Fixpoint title_from (prev_cased : bool) (s : str) : str :=
  match s with
  | [] => []
  | c :: r =>
    (if prev_cased then lower_full c else title_full c) ++ title_from (iscased c) r
  end.

Definition title (s : str) : str := title_from false s.

Definition is_decimal (c : char) : bool :=
  match decimal c with Some _ => true | None => false end.

(** [int(s)] on a string of decimal digits. *)
Definition int_of (s : str) : N :=
  fold_left (fun acc c => (10 * acc + match decimal c with Some v => v | None => 0 end)%N) s 0%N.

Definition is_word (c : char) : bool := isalnum c || (c =? 95)%N.

End Library.

(** ** Regular expressions

    The patterns of the program, as syntax trees, and a backtracking matcher
    that tries the alternatives in the order of Python's [re]: the left
    branch of [|] first, a greedy repetition with as many iterations as
    possible first, a lazy one with as few.  Every repeated sub-pattern of
    this program consumes at least one character per iteration. *)

Inductive cset_item :=
| CLit (c : char)
| CRange (lo hi : char)
| CSpace                              (* \s *)
| CDigit.                             (* \d *)

Inductive regex :=
| Eps
| Lit (c : char)
| Cls (items : list cset_item)        (* [...] *)
| Dot                                 (* . *)
| Bol                                 (* ^ *)
| Eol                                 (* $ *)
| WordB                               (* \b *)
| Seq (r1 r2 : regex)
| Alt (r1 r2 : regex)
| Rep (greedy : bool) (lo : nat) (hi : option nat) (r : regex)
| Grp (n : nat) (r : regex).          (* capturing group number n *)

Record flags := { ignorecase : bool; dotall : bool }.

Definition no_flags := {| ignorecase := false; dotall := false |}.
Definition IGNORECASE := {| ignorecase := true; dotall := false |}.
Definition IGNORECASE_DOTALL := {| ignorecase := true; dotall := true |}.

(** A position in the subject: the character before it, the text from it
    on, and its index. *)
Record cursor := { prev : option char; rest : str; idx : nat }.

Definition caps := list (nat * (nat * nat)).

Record rmatch := { m_start : nat; m_end : nat; m_caps : caps }.

Fixpoint cap_get (n : nat) (cs : caps) : option (nat * nat) :=
  match cs with
  | [] => None
  | (n', sp) :: r => if Nat.eqb n n' then Some sp else cap_get n r
  end.

(** [m.group(n)]; [None] for a group that took no part in the match. *)
Definition group (m : rmatch) (n : nat) (txt : str) : option str :=
  match n with
  | O => Some (slice (m_start m) (m_end m) txt)
  | _ => match cap_get n (m_caps m) with
         | Some (a, b) => Some (slice a b txt)
         | None => None
         end
  end.

Definition group0 (m : rmatch) (txt : str) : str := slice (m_start m) (m_end m) txt.

Definition N_range (lo hi : N) : list N :=
  map (fun i => (lo + N.of_nat i)%N) (seq 0 (N.to_nat (hi + 1 - lo))).

(** re._casefix._EXTRA_CASES: lower-case characters that share their
    upper case with other lower-case characters. *)
Definition EXTRA_CASES : list (N * list N) :=
  [(105, [305]); (115, [383]); (181, [956]); (305, [105]); (383, [115]);
   (837, [953; 8126]); (912, [8147]); (944, [8163]); (946, [976]); (949, [1013]);
   (952, [977]); (953, [837; 8126]); (954, [1008]); (956, [181]); (960, [982]);
   (961, [1009]); (962, [963]); (963, [962]); (966, [981]); (976, [946]);
   (977, [952]); (981, [966]); (982, [960]); (1008, [954]); (1009, [961]);
   (1013, [949]); (1074, [7296]); (1076, [7297]); (1086, [7298]); (1089, [7299]);
   (1090, [7300; 7301]); (1098, [7302]); (1123, [7303]); (7296, [1074]);
   (7297, [1076]); (7298, [1086]); (7299, [1089]); (7300, [1090; 7301]);
   (7301, [1090; 7300]); (7302, [1098]); (7303, [1123]); (7304, [42571]);
   (7777, [7835]); (7835, [7777]); (8126, [837; 953]); (8147, [912]);
   (8163, [944]); (42571, [7304]); (64261, [64262]); (64262, [64261])]%N.

Fixpoint extra_cases_in (t : list (N * list N)) (lo : char) : list char :=
  match t with
  | [] => []
  | (k, v) :: r => if (k =? lo)%N then v else extra_cases_in r lo
  end.

Definition extra_cases (lo : char) : list char := extra_cases_in EXTRA_CASES lo.

Section Matcher.

Context {U : UnicodeData}.

(** _sre.unicode_iscased *)
Definition sre_iscased (c : char) : bool :=
  negb (c =? tolower c)%N || negb (c =? toupper c)%N.

(** The lower-case forms that stand for the pattern character [x] when
    the pattern ignores case. *)
Definition folded (x : char) : list char := tolower x :: extra_cases (tolower x).

Definition lit_match (fl : flags) (x c : char) : bool :=
  if ignorecase fl && sre_iscased x
  then existsb (N.eqb (tolower c)) (folded x)
  else (c =? x)%N.

Definition item_cased (it : cset_item) : bool :=
  match it with
  | CLit x => sre_iscased x
  | CRange lo hi => existsb sre_iscased (N_range lo hi)
  | CSpace | CDigit => false
  end.

Definition item_match (it : cset_item) (c : char) : bool :=
  match it with
  | CLit x => (c =? x)%N
  | CRange lo hi => (lo <=? c)%N && (c <=? hi)%N
  | CSpace => isspace c
  | CDigit => is_decimal c
  end.

(** A set that ignores case holds the lower-case forms of its members and
    is asked about the lower-case form of the subject character. *)
Definition item_match_folded (it : cset_item) (lc : char) : bool :=
  match it with
  | CLit x => existsb (N.eqb lc) (folded x)
  | CRange lo hi => existsb (fun x => existsb (N.eqb lc) (folded x)) (N_range lo hi)
  | CSpace => isspace lc
  | CDigit => is_decimal lc
  end.

Definition cls_match (fl : flags) (items : list cset_item) (c : char) : bool :=
  if ignorecase fl && existsb item_cased items
  then existsb (fun it => item_match_folded it (tolower c)) items
  else existsb (fun it => item_match it c) items.

Definition dot_match (fl : flags) (c : char) : bool :=
  dotall fl || negb (c =? 10)%N.

Definition advance (p : cursor) (c : char) (r : str) : cursor :=
  {| prev := Some c; rest := r; idx := S (idx p) |}.

Definition word_opt (o : option char) : bool :=
  match o with Some c => is_word c | None => false end.

Definition at_boundary (p : cursor) : bool :=
  xorb (word_opt (prev p)) (word_opt (hd_error (rest p))).

Definition at_end (p : cursor) : bool :=
  match rest p with
  | [] => true
  | [c] => (c =? 10)%N
  | _ => false
  end.

Definition one_char {A} (ok : char -> bool) (p : cursor)
    (k : cursor -> option A) : option A :=
  match rest p with
  | c :: r => if ok c then k (advance p c r) else None
  | [] => None
  end.

(** A repetition: [budget] bounds the iterations still allowed, [lo] is the
    number still required. *)
Fixpoint rep_loop {A} (body : cursor -> caps -> (cursor -> caps -> option A) -> option A)
    (greedy : bool) (k : cursor -> caps -> option A)
    (budget lo : nat) (p : cursor) (cs : caps) : option A :=
  match budget with
  | O => match lo with O => k p cs | S _ => None end
  | S b =>
    match lo with
    | S lo' => body p cs (rep_loop body greedy k b lo')
    | O =>
      if greedy then
        match body p cs (rep_loop body greedy k b 0) with
        | Some a => Some a
        | None => k p cs
        end
      else
        match k p cs with
        | Some a => Some a
        | None => body p cs (rep_loop body greedy k b 0)
        end
    end
  end.

Definition budget_of (hi : option nat) (p : cursor) : nat :=
  match hi with Some h => h | None => length (rest p) end.

Fixpoint run {A} (fl : flags) (r : regex) (p : cursor) (cs : caps)
    (k : cursor -> caps -> option A) : option A :=
  match r with
  | Eps => k p cs
  | Lit x => one_char (lit_match fl x) p (fun p' => k p' cs)
  | Cls items => one_char (cls_match fl items) p (fun p' => k p' cs)
  | Dot => one_char (dot_match fl) p (fun p' => k p' cs)
  | Bol => match idx p with O => k p cs | S _ => None end
  | Eol => if at_end p then k p cs else None
  | WordB => if at_boundary p then k p cs else None
  | Seq r1 r2 => run fl r1 p cs (fun p' cs' => run fl r2 p' cs' k)
  | Alt r1 r2 =>
    match run fl r1 p cs k with
    | Some a => Some a
    | None => run fl r2 p cs k
    end
  | Rep greedy lo hi r1 =>
    rep_loop (fun p' cs' k' => run fl r1 p' cs' k') greedy k (budget_of hi p) lo p cs
  | Grp n r1 => run fl r1 p cs (fun p' cs' => k p' ((n, (idx p, idx p')) :: cs'))
  end.

Definition finish (start : nat) (p : cursor) (cs : caps) : option rmatch :=
  Some {| m_start := start; m_end := idx p; m_caps := cs |}.

Definition match_at (fl : flags) (r : regex) (p : cursor) : option rmatch :=
  run fl r p [] (finish (idx p)).

(** [re.search]: the first position, from the left, at which the pattern
    matches. *)
Fixpoint search_from (fl : flags) (r : regex) (pv : option char) (s : str) (i : nat)
    : option rmatch :=
  match match_at fl r {| prev := pv; rest := s; idx := i |} with
  | Some m => Some m
  | None =>
    match s with
    | [] => None
    | c :: s' => search_from fl r (Some c) s' (S i)
    end
  end.

Definition re_search (fl : flags) (r : regex) (txt : str) : option rmatch :=
  search_from fl r None txt 0.

Definition re_match (fl : flags) (r : regex) (txt : str) : option rmatch :=
  match_at fl r {| prev := None; rest := txt; idx := 0 |}.

Definition re_fullmatch (fl : flags) (r : regex) (txt : str) : option rmatch :=
  run fl r {| prev := None; rest := txt; idx := 0 |} []
    (fun p cs => match rest p with [] => finish 0 p cs | _ => None end).

(** [re.sub(r, repl, txt)] for a pattern that matches no empty string:
    [skip] counts the characters of the last match still to pass. *)
Fixpoint sub_from (fl : flags) (r : regex) (repl : str) (pv : option char) (s : str)
    (i skip : nat) : str :=
  match s with
  | [] => []
  | c :: s' =>
    match skip with
    | S n => sub_from fl r repl (Some c) s' (S i) n
    | O =>
      match match_at fl r {| prev := pv; rest := s; idx := i |} with
      | Some m =>
        match m_end m - i with
        | S n => repl ++ sub_from fl r repl (Some c) s' (S i) n
        | O => c :: sub_from fl r repl (Some c) s' (S i) 0
        end
      | None => c :: sub_from fl r repl (Some c) s' (S i) 0
      end
    end
  end.

Definition re_sub (fl : flags) (r : regex) (repl : str) (txt : str) : str :=
  sub_from fl r repl None txt 0 0.

End Matcher.

(** Pattern syntax. *)
Fixpoint seqs (l : list regex) : regex :=
  match l with
  | [] => Eps
  | [r] => r
  | r :: l' => Seq r (seqs l')
  end.

Fixpoint alts (l : list regex) : regex :=
  match l with
  | [] => Eps
  | [r] => r
  | r :: l' => Alt r (alts l')
  end.

(** A literal string, which is also [re.escape(s)]. *)
Definition lits (s : str) : regex := seqs (map Lit s).

Definition opt (r : regex) : regex := Rep true 0 (Some 1) r.        (* r? *)
Definition star (r : regex) : regex := Rep true 0 None r.           (* r* *)
Definition plus (r : regex) : regex := Rep true 1 None r.           (* r+ *)
Definition lazy_star (r : regex) : regex := Rep false 0 None r.     (* r*? *)
Definition times (lo hi : nat) (r : regex) : regex := Rep true lo (Some hi) r.
Definition at_least (lo : nat) (r : regex) : regex := Rep true lo None r.
Definition lazy_times (lo hi : nat) (r : regex) : regex := Rep false lo (Some hi) r.

Definition ws := Cls [CSpace].
Definition digit := Cls [CDigit].
Definition chr (s : string) : char := hd 0%N (u s).
Arguments chr s%_string.

(** ** Calendar dates: [datetime.date] and [strftime("%d/%m/%Y")] *)

Record date := { year : N; month : N; day : N }.

Definition is_leap (y : N) : bool :=
  ((y mod 4 =? 0) && (negb (y mod 100 =? 0) || (y mod 400 =? 0)))%N.

Definition days_in_month (y m : N) : N :=
  (if (m =? 2) then (if is_leap y then 29 else 28)
   else if (m =? 4) || (m =? 6) || (m =? 9) || (m =? 11) then 30
   else 31)%N.

Definition valid_date (y m d : N) : bool :=
  ((1 <=? y) && (y <=? 9999) && (1 <=? m) && (m <=? 12)
   && (1 <=? d) && (d <=? days_in_month y m))%N.

(** [datetime.date(y, m, d)]; [None] stands for the ValueError that the
    program catches. *)
Definition make_date (y m d : N) : option date :=
  if valid_date y m d then Some {| year := y; month := m; day := d |} else None.

Definition digit_char (n : N) : char := (48 + n mod 10)%N.

Definition pad2 (n : N) : str := [digit_char (n / 10); digit_char n].

Definition pad4 (n : N) : str :=
  [digit_char (n / 1000); digit_char (n / 100); digit_char (n / 10); digit_char n].

(** The year as [%Y] prints it with the C library of Linux: in decimal,
    without leading zeros. *)
Definition year_digits (y : N) : str :=
  (if y <? 10 then [digit_char y]
   else if y <? 100 then pad2 y
   else if y <? 1000 then [digit_char (y / 100); digit_char (y / 10); digit_char y]
   else pad4 y)%N.

(** [dt.strftime("%d/%m/%Y")] as CPython gives it on Linux: the day and the
    month on two digits, the year not padded, so that a year before 1000 is
    printed on fewer than four digits. *)
Definition strftime_dmY (dt : date) : str :=
  pad2 (day dt) ++ [47%N] ++ pad2 (month dt) ++ [47%N] ++ year_digits (year dt).

(** ** Exceptions

    The only exception the program can raise and does not catch is the
    IndexError of [banco_name.split()[0]] on a name without a token. *)

Inductive py (A : Type) :=
| Return (a : A)
| IndexError.

Arguments Return {A} a.
Arguments IndexError {A}.

Definition bind {A B} (x : py A) (f : A -> py B) : py B :=
  match x with
  | Return a => f a
  | IndexError => IndexError
  end.

Notation "x <- e1 ;; e2" := (bind e1 (fun x => e2))
  (at level 61, e1 at next level, right associativity).

(** [s.split()[0]] *)
Definition first_token (s : str) : py str :=
  match split_ws s with
  | t :: _ => Return t
  | [] => IndexError
  end.

Definition is_some {A} (o : option A) : bool :=
  match o with Some _ => true | None => false end.

Definition or_empty (o : option str) : str :=
  match o with Some s => s | None => [] end.

(** ** The program *)

Section Program.

Context {U : UnicodeData}.

(** difflib.get_close_matches(word, possibilities, n=1, cutoff=0.7) *)
Variable get_close_matches : str -> list str -> list str.

(** *** Utilities *)

Definition normalize_text (s : str) : str :=
  match s with
  | [] => s
  | _ =>
    let s := nfd s in
    let s := filter (fun ch => negb (category_Mn ch)) s in
    let s := re_sub no_flags (plus ws) (u " ") s in
    strip s
  end.

Definition normalize_upper (s : str) : str :=
  match s with
  | [] => s
  | _ => upper (normalize_text s)
  end.

(** *** Vocabularies *)

Definition COMMON_BANKS : list str :=
  [u "ITAÚ UNIBANCO"; u "ITAU UNIBANCO"; u "ITAU"; u "BANCO DO BRASIL"; u "BRADESCO";
   u "SANTANDER"; u "CAIXA ECONOMICA FEDERAL"; u "CAIXA ECONOMICA"; u "CAIXA";
   u "BANCO SAFRA"; u "BANCO MERCANTIL"; u "BANCO RURAL"; u "BANCO PAN"; u "BANCO INTER"].

Definition ROLE_LABELS : list str :=
  [u "AGRAVANTE"; u "AGRAVADO"; u "RECORRENTE"; u "RECORRIDO";
   u "EMBARGANTE"; u "EMBARGADO"; u "AUTOR"; u "REU"; u "RÉU"; u "INTERESSADO"].

Definition A_Z := CRange (chr "A") (chr "Z").
Definition A_grave_Y_acute := CRange (chr "À") (chr "Ý").
Definition zero_nine := CRange (chr "0") (chr "9").

Definition OUTCOME_PATTERNS : list (str * list regex) :=
  [(u "negar_provimento",
      [seqs [lits (u "NEGA"); opt (Cls [CLit (chr "M"); CLit (chr "R")]); lits (u " PROVIMENTO")];
       lits (u "NEGAR PROVIMENTO");
       lits (u "NEGA-SE PROVIMENTO")]);
   (u "dar_provimento",
      [lits (u "DAR PROVIMENTO");
       seqs [lits (u "DE"); Cls [CLit (chr "A"); CLit (chr "U")]; lits (u " PROVIMENTO")];
       lits (u "PROVIDO");
       seqs [lits (u "ACOLHE");
             opt (Grp 1 (Alt (lits (u " O"))
                             (seqs [lits (u " "); opt (Lit (chr "O")); Lit (chr "A")])));
             lits (u " RECURSO")]]);
   (u "julgar_improcedente",
      [seqs [lits (u "JULGAR"); opt (Grp 1 (lits (u "IM"))); lits (u "PROCEDENTE")];
       lits (u "IMPROCEDENTE")]);
   (u "julgar_procedente",
      [lits (u "JULGAR PROCEDENTE"); lits (u "PROCEDENTE")]);
   (u "prejudicado", [lits (u "PREJUDICAD")]);
   (u "extinto", [lits (u "EXTINTO"); lits (u "EXTINGUIR")])].

(** *** Blocks and parties *)

(** r'(RELAT[ÓO]RIO|RELATORIO)' *)
Definition re_relatorio : regex :=
  Grp 1 (Alt (seqs [lits (u "RELAT"); Cls [CLit (chr "Ó"); CLit (chr "O")]; lits (u "RIO")])
             (lits (u "RELATORIO"))).

(** r'\bVOTO\b|\bVOTO DO RELATOR\b|\bVOTOS\b' *)
Definition re_voto : regex :=
  alts [seqs [WordB; lits (u "VOTO"); WordB];
        seqs [WordB; lits (u "VOTO DO RELATOR"); WordB];
        seqs [WordB; lits (u "VOTOS"); WordB]].

Definition extract_partes_block (txt : str) : str :=
  let m_rel := re_search IGNORECASE re_relatorio txt in
  let m_voto := re_search IGNORECASE re_voto txt in
  match m_rel, m_voto with
  | Some mr, Some mv =>
    if m_start mr <? m_start mv then slice (m_end mr) (m_start mv) txt
    else firstn (m_start mv) txt
  | None, Some mv => firstn (m_start mv) txt
  | _, None => firstn 1500 txt
  end.

Definition label_chars : regex := Cls [A_Z; A_grave_Y_acute; zero_nine; CSpace].

Definition separator : regex := Cls [CLit (chr ":"); CLit (chr "-"); CLit (chr "–")].

(** r'^([A-ZÀ-Ý0-9\s]{3,50})\s*[:\-–]\s*(.+)$' *)
Definition re_label_line : regex :=
  seqs [Bol; Grp 1 (times 3 50 label_chars); star ws; separator; star ws;
        Grp 2 (plus Dot); Eol].

(** r'^[A-ZÀ-Ý0-9\s]{3,50}\s*[:\-–]' *)
Definition re_label_start : regex :=
  seqs [Bol; times 3 50 label_chars; star ws; separator].

(** The first role of the vocabulary that occurs in the label. *)
Definition matched_role (label_upper : str) : option str :=
  find (fun r => contains r label_upper) ROLE_LABELS.

(** The inner loop: the lines after a party line that continue its name.
    Returns the name and the number of lines taken. *)
Fixpoint absorb (name : str) (ls : list str) : str * nat :=
  match ls with
  | l :: ls' =>
    if nonempty (strip l) && negb (is_some (re_match no_flags re_label_start (strip l)))
    then let '(name', n) := absorb (name ++ u " " ++ strip l) ls' in (name', S n)
    else (name, 0)
  | [] => (name, 0)
  end.

Definition dict_append (k : str) (v : str) (d : dict (list str)) : dict (list str) :=
  match dict_get k d with
  | Some l => dict_set k (l ++ [v]) d
  | None => dict_set k [v] d
  end.

(** The outer loop over the lines; [skip] lines were taken by the inner
    loop and are passed over ([i = j]). *)
Fixpoint scan_lines (ls : list str) (skip : nat) (partes : dict (list str))
    : dict (list str) :=
  match ls with
  | [] => partes
  | l :: ls' =>
    match skip with
    | S n => scan_lines ls' n partes
    | O =>
      let line := strip l in
      match re_match no_flags re_label_line line with
      | Some m =>
        let label_raw := strip (or_empty (group m 1 line)) in
        let name := strip (or_empty (group m 2 line)) in
        let label_upper := normalize_upper label_raw in
        match matched_role label_upper with
        | Some role =>
          let '(name', n) := absorb name ls' in
          let clean_name := normalize_text name' in
          scan_lines ls' n
            (if nonempty clean_name then dict_append role clean_name partes else partes)
        | None => scan_lines ls' 0 partes
        end
      | None => scan_lines ls' 0 partes
      end
    end
  end.

(** The names of one role without repetitions, in order. *)
Fixpoint unique_names (seen : list str) (names : list str) : list str :=
  match names with
  | [] => []
  | n :: r =>
    let n_norm := join (u " ") (split_ws n) in
    if existsb (str_eqb n_norm) seen then unique_names seen r
    else n_norm :: unique_names (n_norm :: seen) r
  end.

Definition flatten_names (names : list str) : option str :=
  match unique_names [] names with
  | [] => None
  | unique => Some (join (u "; ") unique)
  end.

Definition extract_partes_from_block (block : str) : dict (option str) :=
  let partes := scan_lines (splitlines block) 0 [] in
  map (fun '(role, names) => (role, flatten_names names)) partes.

(** *** Case number and state, ruling type, judgment date *)

Definition numero_mark (forms : list string) : regex :=
  alts (map (fun s => Lit (chr s)) forms).

Definition num_chars : regex :=
  Cls [zero_nine; CLit (chr "."); CLit (chr "/"); CLit (chr "-")].

(** (?:-\s*([A-Z]{2})) *)
Definition sigla_suffix : regex :=
  seqs [Lit (chr "-"); star ws; Grp 2 (times 2 2 (Cls [A_Z]))].

Definition processo_patterns : list regex :=
  [ (* "\bN(?:º|°|o)\s*[:.]?\s*([0-9]{4,}[0-9\.\-/]*" ")\s*(?:-\s*([A-Z]{2}))" *)
    seqs [WordB; Lit (chr "N"); numero_mark ["º"; "°"; "o"]%string; star ws;
          opt (Cls [CLit (chr ":"); CLit (chr ".")]); star ws;
          Grp 1 (Seq (at_least 4 (Cls [zero_nine]))
                     (star (Cls [zero_nine; CLit (chr "."); CLit (chr "-"); CLit (chr "/")])));
          star ws; sigla_suffix];
    (* r'\bPROCESSO\s*(?:N(?:º|o)\.?)\s*([0-9./-]+)\s*(?:-\s*([A-Z]{2}))?' *)
    seqs [WordB; lits (u "PROCESSO"); star ws;
          Lit (chr "N"); numero_mark ["º"; "o"]%string; opt (Lit (chr ".")); star ws;
          Grp 1 (plus num_chars); star ws; opt sigla_suffix];
    (* r'\bRECURSO ESPECIAL\s*(?:N(?:º|o)\.?)\s*([0-9]+)\s*(?:-\s*([A-Z]{2}))' *)
    seqs [WordB; lits (u "RECURSO ESPECIAL"); star ws;
          Lit (chr "N"); numero_mark ["º"; "o"]%string; opt (Lit (chr ".")); star ws;
          Grp 1 (plus (Cls [zero_nine])); star ws; sigla_suffix];
    (* r'\bREsp\.?\s*([0-9./-]+)\b' *)
    seqs [WordB; lits (u "REsp"); opt (Lit (chr ".")); star ws;
          Grp 1 (plus num_chars); WordB];
    (* r'\bProcesso:\s*([0-9./-]+)\s*(?:-\s*([A-Z]{2}))?' *)
    seqs [WordB; lits (u "Processo:"); star ws;
          Grp 1 (plus num_chars); star ws; opt sigla_suffix] ].

(** r'[A-Z]{2}' *)
Definition re_sigla : regex := times 2 2 (Cls [A_Z]).

(** r'-\s*([A-Z]{2})' *)
Definition re_dash_sigla : regex :=
  seqs [Lit (chr "-"); star ws; Grp 1 (times 2 2 (Cls [A_Z]))].

Definition estado_of (m : rmatch) (groups : list str) (txt : str) : option str :=
  if (1 <? length groups)
     && is_some (re_fullmatch no_flags re_sigla (strip (last groups [])))
  then Some (upper (strip (last groups [])))
  else
    let tail := slice (m_end m) (m_end m + 40) txt in
    match re_search no_flags re_dash_sigla tail with
    | Some m2 => group m2 1 tail
    | None => None
    end.

Fixpoint processo_from (patterns : list regex) (txt : str) : option str * option str :=
  match patterns with
  | [] => (None, None)
  | pat :: more =>
    match re_search IGNORECASE pat txt with
    | Some m =>
      let groups := filter nonempty
                      (map or_empty [group m 1 txt; group m 2 txt]) in
      match groups with
      | g :: _ => (Some (strip g), estado_of m groups txt)
      | [] => processo_from more txt
      end
    | None => processo_from more txt
    end
  end.

Definition extract_processo_and_estado (txt : str) : option str * option str :=
  processo_from processo_patterns txt.

Definition tipos : list str :=
  [u "AGRAVO EM RECURSO ESPECIAL"; u "RECURSO ESPECIAL"; u "AGRAVO INTERNO";
   u "AGRAVO DE INSTRUMENTO"; u "EMBARGOS DE DECLARAÇÃO"].

(** r'\b' + re.escape(t) + r'\b' *)
Definition re_tipo (t : str) : regex := seqs [WordB; lits t; WordB].

(** "^(.*?)\s+N(?:º|o|°)\b" *)
Definition re_header : regex :=
  seqs [Bol; Grp 1 (lazy_star Dot); plus ws; Lit (chr "N");
        numero_mark ["º"; "o"; "°"]%string; WordB].

Definition extract_tipo_processo (txt : str) : option str :=
  match find (fun t => is_some (re_search IGNORECASE (re_tipo t) txt)) tipos with
  | Some t => Some t
  | None =>
    let first_line := hd [] (splitlines txt) in
    match re_match IGNORECASE re_header first_line with
    | Some m => Some (strip (or_empty (group m 1 first_line)))
    | None => None
    end
  end.

Definition meses : dict N :=
  [(u "janeiro", 1); (u "fevereiro", 2); (u "março", 3); (u "marco", 3); (u "abril", 4);
   (u "maio", 5); (u "junho", 6); (u "julho", 7); (u "agosto", 8); (u "setembro", 9);
   (u "outubro", 10); (u "novembro", 11); (u "dezembro", 12)]%N.

(** r'(\d{1,2})\s+de\s+([a-zçãéíóú]+)\s+de\s+(\d{4})' *)
Definition re_data_texto : regex :=
  seqs [Grp 1 (times 1 2 digit); plus ws; lits (u "de"); plus ws;
        Grp 2 (plus (Cls [CRange (chr "a") (chr "z"); CLit (chr "ç"); CLit (chr "ã");
                          CLit (chr "é"); CLit (chr "í"); CLit (chr "ó"); CLit (chr "ú")]));
        plus ws; lits (u "de"); plus ws; Grp 3 (times 4 4 digit)].

(** r'(\d{1,2})[\/\-](\d{1,2})[\/\-](\d{4})' *)
Definition re_data_num : regex :=
  seqs [Grp 1 (times 1 2 digit); Cls [CLit (chr "/"); CLit (chr "-")];
        Grp 2 (times 1 2 digit); Cls [CLit (chr "/"); CLit (chr "-")];
        Grp 3 (times 4 4 digit)].

Definition int_group (m : rmatch) (n : nat) (txt : str) : N :=
  int_of (or_empty (group m n txt)).

(** The numeric attempt, made when the textual one gave no date. *)
Definition data_numerica (txt : str) : option str :=
  match re_search no_flags re_data_num txt with
  | Some m_num =>
    let dia := int_group m_num 1 txt in
    let mes := int_group m_num 2 txt in
    let ano := int_group m_num 3 txt in
    match make_date ano mes dia with
    | Some dt => Some (strftime_dmY dt)
    | None => None
    end
  | None => None
  end.

Definition extract_data_julgamento (txt : str) : option str :=
  match re_search IGNORECASE re_data_texto txt with
  | Some m_texto =>
    let dia := int_group m_texto 1 txt in
    let mes_nome := lower (or_empty (group m_texto 2 txt)) in
    let ano := int_group m_texto 3 txt in
    match dict_get mes_nome meses with
    | Some mes =>
      if (mes =? 0)%N then data_numerica txt
      else match make_date ano mes dia with
           | Some dt => Some (strftime_dmY dt)
           | None => data_numerica txt
           end
    | None => data_numerica txt
    end
  | None => data_numerica txt
  end.

(** *** Bank *)

(** r'\bBANCO\s+([A-ZÀ-Ý0-9\.\-\/\s,&]{2,80}?)\b' *)
Definition re_banco : regex :=
  seqs [WordB; lits (u "BANCO"); plus ws;
        Grp 1 (lazy_times 2 80
                 (Cls [A_Z; A_grave_Y_acute; zero_nine; CLit (chr "."); CLit (chr "-");
                       CLit (chr "/"); CSpace; CLit (chr ","); CLit (chr "&")]));
        WordB].

(** r'([A-Z][A-Z\s\.\-,&]{3,80}S\.A\.?)' *)
Definition re_sociedade : regex :=
  Grp 1 (seqs [Cls [A_Z];
               times 3 80 (Cls [A_Z; CSpace; CLit (chr "."); CLit (chr "-");
                                CLit (chr ","); CLit (chr "&")]);
               Lit (chr "S"); Lit (chr "."); Lit (chr "A"); opt (Lit (chr "."))]).

Definition detect_bank (txt : str) : option str :=
  let txt_n := normalize_upper txt in
  match find (fun b => contains (upper b) txt_n) COMMON_BANKS with
  | Some b => Some b
  | None =>
    match re_search IGNORECASE re_banco txt with
    | Some m =>
      let cand := strip (group0 m txt) in
      let cand := re_sub no_flags (at_least 2 ws) (u " ") cand in
      Some (normalize_text cand)
    | None =>
      match re_search IGNORECASE re_sociedade txt with
      | Some m2 =>
        let cand := normalize_text (or_empty (group m2 1 txt)) in
        match get_close_matches (upper cand) (map upper COMMON_BANKS) with
        | best :: _ => Some (title best)
        | [] => Some cand
        end
      | None => None
      end
    end
  end.

(** *** Operative clause *)

(** r'\bACORDAM\b(.{0,2000})' and r'\bDISPOSITIVO\b(.{0,2000})' *)
Definition re_clause (word : str) : regex :=
  seqs [WordB; lits word; WordB; Grp 1 (times 0 2000 Dot)].

Definition extract_dispositivo (txt : str) : option str :=
  match re_search IGNORECASE_DOTALL (re_clause (u "ACORDAM")) txt with
  | Some m => Some (strip (group0 m txt))
  | None =>
    match re_search IGNORECASE_DOTALL (re_clause (u "DISPOSITIVO")) txt with
    | Some m2 => Some (strip (group0 m2 txt))
    | None =>
      let tail := strip (last_chars 1200 txt) in
      if nonempty tail then Some tail else None
    end
  end.

(** *** Outcome for the bank *)

Definition str_in (x : str) (l : list str) : bool := existsb (str_eqb x) l.

Definition any_in (roles : list str) (bank_roles : list str) : bool :=
  existsb (fun r => str_in r bank_roles) roles.

Definition appellant_side : list str := [u "AGRAVANTE"; u "RECORRENTE"; u "EMBARGANTE"].
Definition appellee_side : list str := [u "AGRAVADO"; u "RECORRIDO"; u "EMBARGADO"].

(** The first outcome kind one of whose phrasings occurs in the clause. *)
Definition matched_outcome (dnorm : str) : option str :=
  option_map fst
    (find (fun kp : str * list regex =>
             existsb (fun pat => is_some (re_search IGNORECASE pat dnorm)) (snd kp))
          OUTCOME_PATTERNS).

(** The roles under which a name holds the bank's first token or its whole
    name. *)
Definition roles_of_bank (banco_name : str) (bn_token : str) (partes : dict (option str))
    : list str :=
  flat_map (fun rn : str * option str =>
    match snd rn with
    | Some names_str =>
      if nonempty names_str then
        flat_map (fun nm =>
            if contains bn_token (normalize_upper nm)
               || contains (normalize_upper banco_name) (normalize_upper nm)
            then [fst rn] else [])
          (map strip (split_on (chr ";") names_str))
      else []
    | None => []
    end) partes.

Definition infer_decision_for_bank (dispositivo : option str) (partes : dict (option str))
    (banco_name : option str) : py (option str) :=
  if negb (truthy dispositivo) then Return None
  else
    let disp := or_empty dispositivo in
    let dnorm := normalize_upper disp in
    let matched_key := matched_outcome dnorm in
    let bn := or_empty banco_name in
    bank_roles <-
      (if truthy banco_name && dict_nonempty partes then
         tok <- first_token bn ;;
         Return (roles_of_bank bn (normalize_upper tok) partes)
       else Return []) ;;
    let fallback :=
      if truthy banco_name then
        tok <- first_token bn ;;
        let bn_simple := normalize_upper tok in
        if is_some (re_search IGNORECASE
                      (seqs [lits (u "NEGA"); star Dot; lits (u "PROVIMENTO"); star Dot;
                             lits bn_simple])
                      (normalize_upper disp))
        then Return (Some (u "contraria"))
        else if is_some (re_search IGNORECASE
                           (seqs [lits (u "DAR PROVIMENTO"); star Dot; lits bn_simple])
                           (normalize_upper disp))
        then Return (Some (u "favoravel"))
        else Return (Some (u "indeterminado"))
      else Return (Some (u "indeterminado")) in
    match matched_key with
    | Some key =>
      if str_in key [u "negar_provimento"; u "julgar_improcedente"; u "prejudicado"; u "extinto"]
      then
        if any_in appellant_side bank_roles then Return (Some (u "contraria"))
        else if any_in appellee_side bank_roles then Return (Some (u "favoravel"))
        else Return (Some (u "indeterminado"))
      else if str_in key [u "dar_provimento"; u "julgar_procedente"]
      then
        if any_in appellant_side bank_roles then Return (Some (u "favoravel"))
        else if any_in appellee_side bank_roles then Return (Some (u "contraria"))
        else Return (Some (u "indeterminado"))
      else fallback
    | None => fallback
    end.

(** *** The record *)

Definition record := dict (option str).

Definition role_keys : list str :=
  [u "AGRAVANTE"; u "AGRAVADO"; u "RECORRENTE"; u "RECORRIDO"; u "EMBARGANTE";
   u "EMBARGADO"; u "AUTOR"; u "REU"; u "INTERESSADO"].

Definition schema_keys : list str :=
  [u "processo"; u "tipo_processo"; u "data_julgamento"; u "estado"]
  ++ role_keys ++ [u "banco"; u "decisao_para_banco"].

Definition default_record : record := map (fun k => (k, None)) schema_keys.

(** [if v: result[k] = v] *)
Definition set_if_found (k : str) (v : option str) (result : record) : record :=
  if truthy v then dict_set k v result else result.

Definition extract_acordao_data (text : str) : py record :=
  let result := default_record in
  if negb (nonempty text) || negb (nonempty (strip text)) then Return result
  else
    let txt := text in
    let '(proc, est) := extract_processo_and_estado txt in
    let result := set_if_found (u "processo") proc result in
    let result := set_if_found (u "estado") est result in
    let tipo := extract_tipo_processo txt in
    let result := set_if_found (u "tipo_processo") tipo result in
    let data := extract_data_julgamento txt in
    let result := set_if_found (u "data_julgamento") data result in
    let block := extract_partes_block txt in
    let partes_flat := extract_partes_from_block block in
    let result :=
      fold_left (fun res role =>
                   match dict_get role partes_flat with
                   | Some v => dict_set role v res
                   | None => res
                   end) role_keys result in
    let banco := detect_bank txt in
    let result := set_if_found (u "banco") banco result in
    let dispositivo := extract_dispositivo txt in
    decisao <- infer_decision_for_bank dispositivo
                 (filter (fun kv : str * option str => str_in (fst kv) ROLE_LABELS) result)
                 banco ;;
    Return (dict_set (u "decisao_para_banco") decisao result).

End Program.

(** ** The character database for Latin text

    The entries of the Unicode character database for Basic Latin, the
    Latin-1 Supplement (U+0000-U+00FF) and the combining diacritical marks
    (U+0300-U+036F), the characters outside these blocks that those map
    to, and three characters of other scripts that the normalizer is tried
    on: U+0E31 (Thai, a non-spacing mark of class 0), U+302E (Hangul tone
    mark, a spacing mark of class 224) and U+1D165 (musical stem, a spacing
    mark of class 216).  Any other character is given no property. *)

Module Latin.

Definition in_range (lo hi c : N) : bool := ((lo <=? c) && (c <=? hi))%N.

Definition category_Mn (c : char) : bool :=
  in_range 768 879 c || (c =? 3633)%N.

Definition decompositions : list (N * list N) :=
  [(192, [65; 768]); (193, [65; 769]); (194, [65; 770]); (195, [65; 771]);
   (196, [65; 776]); (197, [65; 778]); (199, [67; 807]); (200, [69; 768]);
   (201, [69; 769]); (202, [69; 770]); (203, [69; 776]); (204, [73; 768]);
   (205, [73; 769]); (206, [73; 770]); (207, [73; 776]); (209, [78; 771]);
   (210, [79; 768]); (211, [79; 769]); (212, [79; 770]); (213, [79; 771]);
   (214, [79; 776]); (217, [85; 768]); (218, [85; 769]); (219, [85; 770]);
   (220, [85; 776]); (221, [89; 769]); (224, [97; 768]); (225, [97; 769]);
   (226, [97; 770]); (227, [97; 771]); (228, [97; 776]); (229, [97; 778]);
   (231, [99; 807]); (232, [101; 768]); (233, [101; 769]); (234, [101; 770]);
   (235, [101; 776]); (236, [105; 768]); (237, [105; 769]); (238, [105; 770]);
   (239, [105; 776]); (241, [110; 771]); (242, [111; 768]); (243, [111; 769]);
   (244, [111; 770]); (245, [111; 771]); (246, [111; 776]); (249, [117; 768]);
   (250, [117; 769]); (251, [117; 770]); (252, [117; 776]); (253, [121; 769]);
   (255, [121; 776]); (376, [89; 776]);
   (832, [768]); (833, [769]); (835, [787]); (836, [776; 769])]%N.

Fixpoint lookup {A} (t : list (N * A)) (c : N) : option A :=
  match t with
  | [] => None
  | (k, v) :: r => if (k =? c)%N then Some v else lookup r c
  end.

Definition decomposition (c : char) : str :=
  match lookup decompositions c with Some l => l | None => [c] end.

Definition combining_classes : list (N * N * N) :=
  [(768, 788, 230); (789, 789, 232); (790, 793, 220); (794, 794, 232);
   (795, 795, 216); (796, 800, 220); (801, 802, 202); (803, 806, 220);
   (807, 808, 202); (809, 819, 220); (820, 824, 1); (825, 828, 220);
   (829, 836, 230); (837, 837, 240); (838, 838, 230); (839, 841, 220);
   (842, 844, 230); (845, 846, 220); (848, 850, 230); (851, 854, 220);
   (855, 855, 230); (856, 856, 232); (857, 858, 220); (859, 859, 230);
   (860, 860, 233); (861, 862, 234); (863, 863, 233); (864, 865, 234);
   (866, 866, 233); (867, 879, 230); (12334, 12334, 224); (119141, 119141, 216)]%N.

Fixpoint class_in (t : list (N * N * N)) (c : N) : N :=
  match t with
  | [] => 0
  | (lo, hi, k) :: r => if in_range lo hi c then k else class_in r c
  end.

Definition combining (c : char) : N := class_in combining_classes c.

Definition decimal (c : char) : option N :=
  if in_range 48 57 c then Some (c - 48)%N else None.

Definition isalnum (c : char) : bool :=
  in_range 48 57 c || in_range 65 90 c || in_range 97 122 c || (c =? 170)%N
  || in_range 178 179 c || (c =? 181)%N || in_range 185 186 c || in_range 188 190 c
  || in_range 192 214 c || in_range 216 246 c || in_range 248 255 c
  || (c =? 376)%N || (c =? 924)%N || (c =? 956)%N.

Definition tolower (c : char) : char :=
  (if in_range 65 90 c then c + 32
   else if in_range 192 222 c && negb (c =? 215) then c + 32
   else if c =? 376 then 255
   else if c =? 924 then 956
   else c)%N.

Definition toupper (c : char) : char :=
  (if in_range 97 122 c then c - 32
   else if c =? 181 then 924
   else if c =? 223 then 83
   else if in_range 224 254 c && negb (c =? 247) then c - 32
   else if c =? 255 then 376
   else if c =? 837 then 921
   else if c =? 956 then 924
   else c)%N.

Definition upper_full (c : char) : str :=
  if (c =? 223)%N then [83; 83]%N else [toupper c].

Definition lower_full (c : char) : str := [tolower c].

Definition title_full (c : char) : str :=
  if (c =? 223)%N then [83; 115]%N else [toupper c].

Definition iscased (c : char) : bool :=
  in_range 65 90 c || in_range 97 122 c || (c =? 170)%N || (c =? 181)%N || (c =? 186)%N
  || in_range 192 214 c || in_range 216 246 c || in_range 248 255 c
  || (c =? 376)%N || (c =? 837)%N || (c =? 924)%N || (c =? 956)%N.

End Latin.

Definition latin_ucd : UnicodeData :=
  {| category_Mn := Latin.category_Mn;
     decomposition := Latin.decomposition;
     combining := Latin.combining;
     decimal := Latin.decimal;
     isalnum := Latin.isalnum;
     tolower := Latin.tolower;
     toupper := Latin.toupper;
     upper_full := Latin.upper_full;
     lower_full := Latin.lower_full;
     title_full := Latin.title_full;
     iscased := Latin.iscased |}.

(** ** Functions used to state the properties *)

(** [difflib] reduced to the candidates equal to the word: a matcher that
    returns only members of the list it is given. *)
Definition exact_matches (word : str) (possibilities : list str) : list str :=
  firstn 1 (filter (str_eqb word) possibilities).

(** Number of whitespace characters at the head of a string. *)
Fixpoint lead (s : str) : nat :=
  match s with
  | c :: r => if isspace c then S (lead r) else 0
  | [] => 0
  end.

(** Every run of whitespace replaced by one space; [in_run] tells that the
    run being read has been replaced already. *)
Fixpoint collapse_from (in_run : bool) (s : str) : str :=
  match s with
  | [] => []
  | c :: r =>
    if isspace c then (if in_run then collapse_from true r else 32%N :: collapse_from true r)
    else c :: collapse_from false r
  end.

Definition ascii_digit (c : char) : bool := ((48 <=? c) && (c <=? 57))%N.

(** A string of the form DD/MM/YYYY. *)
Definition is_dd_mm_yyyy (r : str) : bool :=
  match r with
  | [d1; d2; s1; m1; m2; s2; y1; y2; y3; y4] =>
    forallb ascii_digit [d1; d2; m1; m2; y1; y2; y3; y4] && (s1 =? 47)%N && (s2 =? 47)%N
  | _ => false
  end.

Definition digits_value (l : list char) : N :=
  fold_left (fun acc c => (10 * acc + (c - 48))%N) l 0%N.

(** The year, month and day that a string DD/MM/YYYY denotes. *)
Definition read_date (r : str) : N * N * N :=
  match r with
  | [d1; d2; _; m1; m2; _; y1; y2; y3; y4] =>
    (digits_value [y1; y2; y3; y4], digits_value [m1; m2], digits_value [d1; d2])
  | _ => (0, 0, 0)%N
  end.

(** A name is empty or has a token: what [banco_name.split()[0]] needs of
    a name that is not empty. *)
Definition has_token (b : str) : Prop := b = [] \/ split_ws b <> [].

(** The closest-match function returns candidates of the list it is
    given. *)
Definition returns_candidates (get_close_matches : str -> list str -> list str) : Prop :=
  forall w l x, In x (get_close_matches w l) -> In x l.

(** The known bank names, in title case, are not blank. *)
Definition titles_not_blank {U : UnicodeData} : Prop :=
  forall b, In b COMMON_BANKS -> split_ws (title (upper b)) <> [].

(** The matcher moved from [p] to [q] over the word [w]. *)
Definition moved (p q : cursor) (w : str) : Prop :=
  rest p = w ++ rest q /\ idx q = idx p + length w.

(** The calendar date, if any, that a match of the textual pattern and a
    match of the numeric pattern denote. *)
Definition data_do_texto {U : UnicodeData} (txt : str) (m : rmatch) : option date :=
  match dict_get (lower (or_empty (group m 2 txt))) meses with
  | Some mes =>
    if (mes =? 0)%N then None else make_date (int_group m 3 txt) mes (int_group m 1 txt)
  | None => None
  end.

Definition data_do_numero {U : UnicodeData} (txt : str) (m : rmatch) : option date :=
  make_date (int_group m 3 txt) (int_group m 2 txt) (int_group m 1 txt).

(** The date of the first match of the textual pattern, and of the first
    match of the numeric pattern. *)
Definition data_textual {U : UnicodeData} (txt : str) : option date :=
  match re_search IGNORECASE re_data_texto txt with
  | Some m => data_do_texto txt m
  | None => None
  end.

Definition data_numeral {U : UnicodeData} (txt : str) : option date :=
  match re_search no_flags re_data_num txt with
  | Some m => data_do_numero txt m
  | None => None
  end.

Definition text_short_year : str := u "JULGADO: 28/08/0999".



(** Every whitespace character of the string is a space (U+0020) followed
    by a character of the string that is not whitespace. *)
Fixpoint spaced_ok (s : str) : bool :=
  match s with
  | [] => true
  | c :: r =>
    if isspace c then
      (c =? 32)%N && match r with d :: _ => negb (isspace d) | [] => false end
      && spaced_ok r
    else spaced_ok r
  end.

(** A phrase: words separated by single spaces. *)
Definition phrase (s : str) : bool :=
  match s with
  | c :: _ => negb (isspace c) && spaced_ok s
  | [] => false
  end.


(** A character that normalization and upper-casing leave alone. *)
Definition plain {U : UnicodeData} (c : char) : Prop :=
  decomposition c = [c] /\ combining c = 0%N /\ category_Mn c = false
  /\ upper_full c = [c].


(** The texts of the scenarios of the specification. *)
Definition clause_negam : str := u "NEGAM PROVIMENTO AO RECURSO".

Definition banco_itau : str := u "Banco Itaú Unibanco".

Definition block_example : str := u "AGRAVANTE: Banco XYZ S.A.
Continuação do nome
AGRAVADO: Fulano de Tal".

Definition text_itau : str :=
  u "Recurso interposto contra o banco ITAÚ UNIBANCO S.A. e outros".












Definition text_pauta : str := u "PAUTA: 01/08/2023 JULGADO: 28/08/2023".



(** * Properties *)

Ltac Zify.zify_post_hook ::= Z.to_euclidean_division_equations.

(** ** Strings and dictionaries *)



Lemma keys_dict_set {V} (k : str) (v : V) (d : dict V) :
  existsb (str_eqb k) (keys d) = true -> keys (dict_set k v d) = keys d.
Proof.
  induction d as [|[k' v'] d IH]; simpl; [discriminate|].
  destruct (str_eqb k k') eqn:E; simpl; [reflexivity|].
  intro H. now rewrite IH.
Qed.



Lemma lstrip_all_space (s : str) :
  (forall c, In c s -> isspace c = true) -> lstrip s = [].
Proof.
  induction s as [|c s IH]; simpl; intro H; [reflexivity|].
  rewrite (H c (or_introl eq_refl)). apply IH. intros; apply H; now right.
Qed.

Lemma strip_all_space (s : str) :
  (forall c, In c s -> isspace c = true) -> strip s = [].
Proof. intro H. unfold strip, rstrip. now rewrite (lstrip_all_space s H). Qed.

Lemma lstrip_head (s : str) :
  lstrip s = [] \/ exists c r, lstrip s = c :: r /\ isspace c = false.
Proof.
  induction s as [|c s IH]; simpl; [now left|].
  destruct (isspace c) eqn:E; [exact IH|]. right. now exists c, s.
Qed.

Lemma lstrip_app_nonspace (a : str) (c : char) (r : str) :
  isspace c = false -> lstrip (a ++ c :: r) = lstrip a ++ c :: r.
Proof.
  intro Hc. induction a as [|x a IH]; simpl.
  - now rewrite Hc.
  - destruct (isspace x); [exact IH|reflexivity].
Qed.

Lemma rstrip_app_nonspace (a : str) (c : char) (r : str) :
  isspace c = false -> rstrip (a ++ c :: r) = a ++ c :: rstrip r.
Proof.
  intro Hc. unfold rstrip.
  rewrite rev_app_distr. simpl. rewrite <- app_assoc. simpl.
  rewrite lstrip_app_nonspace by exact Hc.
  rewrite rev_app_distr. simpl. rewrite rev_involutive.
  now rewrite <- app_assoc.
Qed.

(** A stripped string is empty or begins with a character that is not
    whitespace. *)
Lemma strip_head (s : str) :
  strip s = [] \/ exists c r, strip s = c :: r /\ isspace c = false.
Proof.
  unfold strip. destruct (lstrip_head s) as [E|(c & r & E & Hc)]; rewrite E.
  - now left.
  - right. exists c, (rstrip r). split; [|exact Hc].
    now apply (rstrip_app_nonspace [] c r).
Qed.

Lemma split_ws_from_cur (cur s : str) : cur <> [] -> split_ws_from cur s <> [].
Proof.
  revert cur; induction s as [|c s IH]; intros cur Hc; simpl.
  - destruct cur; [congruence|discriminate].
  - destruct (isspace c).
    + destruct cur; [congruence|discriminate].
    + apply IH. discriminate.
Qed.

Lemma split_ws_nonblank (c : char) (r : str) :
  isspace c = false -> split_ws (c :: r) <> [].
Proof.
  intro H. unfold split_ws. simpl. rewrite H. apply split_ws_from_cur. discriminate.
Qed.

Lemma strip_has_token (s : str) : has_token (strip s).
Proof.
  destruct (strip_head s) as [E|(c & r & E & Hc)]; rewrite E; [now left|right].
  now apply split_ws_nonblank.
Qed.

(** ** The record and its keys *)

Section RecordProperties.

Context {U : UnicodeData}.
Variable get_close_matches : str -> list str -> list str.

Lemma normalize_text_has_token (s : str) : has_token (normalize_text s).
Proof.
  destruct s as [|c s]; [now left|]. unfold normalize_text. apply strip_has_token.
Qed.

Lemma common_banks_have_token (b : str) : In b COMMON_BANKS -> has_token b.
Proof.
  intro H. right. unfold COMMON_BANKS in H. simpl in H.
  repeat (destruct H as [<-|H]; [vm_compute; discriminate|]). destruct H.
Qed.

Lemma detect_bank_has_token (txt b : str) :
  returns_candidates get_close_matches -> titles_not_blank ->
  detect_bank get_close_matches txt = Some b -> has_token b.
Proof.
  intros Hg Ht. unfold detect_bank.
  destruct (find _ COMMON_BANKS) as [b0|] eqn:Ef.
  - intros [= <-]. apply find_some in Ef as [Hin _]. now apply common_banks_have_token.
  - destruct (re_search IGNORECASE re_banco txt) as [m|].
    + intros [= <-]. apply normalize_text_has_token.
    + destruct (re_search IGNORECASE re_sociedade txt) as [m2|]; [|discriminate].
      destruct (get_close_matches _ _) as [|best l] eqn:Eg.
      * intros [= <-]. apply normalize_text_has_token.
      * intros [= <-]. right.
        assert (Hb : In best (map upper COMMON_BANKS)).
        { apply (Hg (upper (normalize_text (or_empty (group m2 1 txt)))) _ best).
          rewrite Eg. now left. }
        apply in_map_iff in Hb as (b0 & <- & Hin). now apply Ht.
Qed.

Lemma first_token_returns (b : str) :
  nonempty b = true -> has_token b -> exists t, first_token b = Return t.
Proof.
  intros Hn [->|Hs]; [discriminate|]. unfold first_token.
  destruct (split_ws b) as [|t l]; [congruence|now exists t].
Qed.

(** The classifier raises nothing when the bank name, if any, has a token. *)
Lemma infer_decision_returns (dispositivo : option str) (partes : dict (option str))
    (banco : option str) :
  (forall b, banco = Some b -> has_token b) ->
  exists d, infer_decision_for_bank dispositivo partes banco = Return d.
Proof.
  intro Hb. unfold infer_decision_for_bank.
  destruct (negb (truthy dispositivo)); [now eexists|].
  destruct banco as [b|]; simpl truthy.
  - destruct (nonempty b) eqn:En.
    + destruct (first_token_returns b En (Hb b eq_refl)) as [t Et].
      simpl or_empty. rewrite Et. simpl.
      destruct (dict_nonempty partes); simpl;
        repeat match goal with
               | |- context [match ?x with _ => _ end] => destruct x
               end; now eexists.
    + simpl.
      repeat match goal with
             | |- context [match ?x with _ => _ end] => destruct x
             end; now eexists.
  - simpl.
    repeat match goal with
           | |- context [match ?x with _ => _ end] => destruct x
           end; now eexists.
Qed.

Lemma Return_inj {A} (a b : A) : Return a = Return b -> a = b.
Proof. now intros [=]. Qed.

Lemma keys_default : keys default_record = schema_keys.
Proof. reflexivity. Qed.

Lemma keys_set_schema (k : str) (v : option str) (r : record) :
  existsb (str_eqb k) schema_keys = true ->
  keys r = schema_keys -> keys (dict_set k v r) = schema_keys.
Proof. intros Hk Hr. rewrite keys_dict_set; [exact Hr|now rewrite Hr]. Qed.

Lemma keys_set_if_found (k : str) (v : option str) (r : record) :
  existsb (str_eqb k) schema_keys = true ->
  keys r = schema_keys -> keys (set_if_found k v r) = schema_keys.
Proof.
  intros Hk Hr. unfold set_if_found. destruct (truthy v); [|exact Hr].
  now apply keys_set_schema.
Qed.

Lemma keys_fill_roles (partes_flat : dict (option str)) (roles : list str) (r : record) :
  (forall k, In k roles -> existsb (str_eqb k) schema_keys = true) ->
  keys r = schema_keys ->
  keys (fold_left (fun res role =>
                     match dict_get role partes_flat with
                     | Some v => dict_set role v res
                     | None => res
                     end) roles r) = schema_keys.
Proof.
  revert r. induction roles as [|k roles IH]; intros r Hk Hr; simpl; [exact Hr|].
  apply IH; [intros; apply Hk; now right|].
  destruct (dict_get k partes_flat); [|exact Hr].
  apply keys_set_schema; [|exact Hr]. apply Hk. now left.
Qed.

Lemma role_keys_in_schema (k : str) :
  In k role_keys -> existsb (str_eqb k) schema_keys = true.
Proof.
  intro H. unfold role_keys in H. simpl in H.
  repeat (destruct H as [<-|H]; [reflexivity|]). destruct H.
Qed.

(** Whatever the extractors find, the record that comes back has the keys
    of the schema, in the order of the schema. *)
Lemma extract_keys (text : str) (r : record) :
  extract_acordao_data get_close_matches text = Return r -> keys r = schema_keys.
Proof.
  unfold extract_acordao_data.
  destruct (negb (nonempty text) || negb (nonempty (strip text))).
  - intros [= <-]. apply keys_default.
  - destruct (extract_processo_and_estado text) as [proc est].
    match goal with
    | |- bind ?x _ = _ -> _ => destruct x as [d|]; cbn [bind]; [|discriminate]
    end.
    intro H. apply Return_inj in H. subst r.
    apply keys_set_schema; [reflexivity|].
    apply keys_set_if_found; [reflexivity|].
    apply keys_fill_roles; [exact role_keys_in_schema|].
    repeat (apply keys_set_if_found; [reflexivity|]).
    apply keys_default.
Qed.

Lemma extract_returns (text : str) :
  returns_candidates get_close_matches -> titles_not_blank ->
  exists r, extract_acordao_data get_close_matches text = Return r.
Proof.
  intros Hg Ht. unfold extract_acordao_data.
  destruct (negb (nonempty text) || negb (nonempty (strip text))); [now eexists|].
  destruct (extract_processo_and_estado text) as [proc est].
  match goal with
  | |- exists r, bind (infer_decision_for_bank ?d ?p ?b) _ = _ =>
    destruct (infer_decision_returns d p b) as [x Hx]
  end.
  - intros b Hb. now apply (detect_bank_has_token text).
  - rewrite Hx. cbn [bind]. now eexists.
Qed.

(** C1. For every text, [extract_acordao_data] returns a record: it raises
    nothing, and the keys of the record are exactly the fifteen keys of the
    schema (the four header fields, the nine roles, [banco] and
    [decisao_para_banco]), none missing, none added, none twice; every value
    is a string or the absent marker [None], which the type of the record
    says.  The closest-match function of [difflib] is assumed to return
    candidates of the list it is given, and the title-case forms of the known
    bank names not to be blank. *)
Theorem extract_record_schema (text : str) :
  returns_candidates get_close_matches -> titles_not_blank ->
  exists r : dict (option str),
    extract_acordao_data get_close_matches text = Return r
    /\ keys r = schema_keys
    /\ NoDup (keys r)
    /\ length (keys r) = 15.
Proof.
  intros Hg Ht. destruct (extract_returns text Hg Ht) as [r Hr].
  exists r. split; [exact Hr|]. rewrite (extract_keys text r Hr).
  split; [reflexivity|]. split; [|reflexivity].
  unfold schema_keys, role_keys. simpl.
  repeat (constructor; [simpl; intro H;
    repeat (destruct H as [H|H]; [vm_compute in H; discriminate H|]); exact H|]).
  constructor.
Qed.

(** C7. On the empty string and on a string of whitespace only,
    [extract_acordao_data] returns the record in which each of the fifteen
    fields is absent, and raises nothing. *)
Theorem extract_blank_text (text : str) :
  (forall c, In c text -> isspace c = true) ->
  extract_acordao_data get_close_matches text = Return default_record
  /\ forall k, In k schema_keys -> dict_get k default_record = Some None.
Proof.
  intro H. split.
  - unfold extract_acordao_data. rewrite (strip_all_space text H).
    simpl. now rewrite orb_true_r.
  - intros k Hk. unfold schema_keys, role_keys in Hk. simpl in Hk.
    repeat (destruct Hk as [<-|Hk]; [reflexivity|]). destruct Hk.
Qed.

End RecordProperties.

(** ** The matcher *)

Section MatcherProperties.

Context {U : UnicodeData}.

Lemma moved_refl (p : cursor) : moved p p [].
Proof. split; simpl; [reflexivity|lia]. Qed.

Lemma moved_trans (p q r : cursor) (w1 w2 : str) :
  moved p q w1 -> moved q r w2 -> moved p r (w1 ++ w2).
Proof.
  intros [H1 H2] [H3 H4]. split.
  - rewrite H1, H3. now rewrite app_assoc.
  - rewrite H4, H2, length_app. lia.
Qed.

Lemma moved_advance (p : cursor) (c : char) (r : str) :
  rest p = c :: r -> moved p (advance p c r) [c].
Proof. intro H. split; simpl; [exact H|lia]. Qed.

Lemma one_char_inv {A} (ok : char -> bool) (p : cursor) (k : cursor -> option A) (a : A) :
  one_char ok p k = Some a ->
  exists c r, rest p = c :: r /\ ok c = true /\ k (advance p c r) = Some a.
Proof.
  unfold one_char. destruct (rest p) as [|c r]; [discriminate|].
  destruct (ok c) eqn:E; [|discriminate]. intro H. now exists c, r.
Qed.

(** What a repetition returns comes from its continuation, at a position
    reached over the subject, when that holds of its body. *)
Lemma rep_loop_inv {A}
    (body : cursor -> caps -> (cursor -> caps -> option A) -> option A)
    (greedy : bool) (k : cursor -> caps -> option A) :
  (forall p cs k' a, body p cs k' = Some a ->
     exists q cs' w, k' q cs' = Some a /\ moved p q w) ->
  forall budget lo p cs a,
    rep_loop body greedy k budget lo p cs = Some a ->
    exists q cs' w, k q cs' = Some a /\ moved p q w.
Proof.
  intro Hbody. induction budget as [|b IH]; intros lo p cs a; simpl.
  - destruct lo; [|discriminate]. intro H. exists p, cs, []. split; [exact H|apply moved_refl].
  - assert (Hmore : forall lo', body p cs (rep_loop body greedy k b lo') = Some a ->
                      exists q cs' w, k q cs' = Some a /\ moved p q w).
    { intros lo' H. apply Hbody in H as (q & cs' & w & H & Hm).
      apply IH in H as (q2 & cs2 & w2 & H & Hm2).
      exists q2, cs2, (w ++ w2). split; [exact H|]. now apply (moved_trans p q q2). }
    destruct lo as [|lo'].
    + destruct greedy.
      * destruct (body p cs (rep_loop body true k b 0)) as [x|] eqn:E.
        -- intros [= <-]. now apply (Hmore 0).
        -- intro H. exists p, cs, []. split; [exact H|apply moved_refl].
      * destruct (k p cs) as [x|] eqn:E.
        -- intros [= <-]. exists p, cs, []. split; [exact E|apply moved_refl].
        -- apply Hmore.
    + apply Hmore.
Qed.

(** Whatever the matcher returns comes from its continuation, called at a
    position that lies further in the subject. *)
Lemma run_inv {A} (fl : flags) (r : regex) :
  forall (p : cursor) (cs : caps) (k : cursor -> caps -> option A) (a : A),
    run fl r p cs k = Some a ->
    exists q cs' w, k q cs' = Some a /\ moved p q w.
Proof.
  induction r as [ | x | items | | | | | r1 IH1 r2 IH2 | r1 IH1 r2 IH2
                 | greedy lo hi r1 IH1 | n r1 IH1 ]; intros p cs k a; simpl.
  - intro H. exists p, cs, []. split; [exact H|apply moved_refl].
  - intro H. apply one_char_inv in H as (c & r & E & _ & H).
    exists (advance p c r), cs, [c]. split; [exact H|now apply moved_advance].
  - intro H. apply one_char_inv in H as (c & r & E & _ & H).
    exists (advance p c r), cs, [c]. split; [exact H|now apply moved_advance].
  - intro H. apply one_char_inv in H as (c & r & E & _ & H).
    exists (advance p c r), cs, [c]. split; [exact H|now apply moved_advance].
  - destruct (idx p); [|discriminate].
    intro H. exists p, cs, []. split; [exact H|apply moved_refl].
  - destruct (at_end p); [|discriminate].
    intro H. exists p, cs, []. split; [exact H|apply moved_refl].
  - destruct (at_boundary p); [|discriminate].
    intro H. exists p, cs, []. split; [exact H|apply moved_refl].
  - intro H. apply IH1 in H as (q & cs1 & w1 & H & Hm1).
    apply IH2 in H as (q2 & cs2 & w2 & H & Hm2).
    exists q2, cs2, (w1 ++ w2). split; [exact H|now apply (moved_trans p q q2)].
  - destruct (run fl r1 p cs k) as [x|] eqn:E.
    + intros [= <-]. now apply IH1 in E.
    + apply IH2.
  - apply rep_loop_inv. intros p0 cs0 k' a0. apply IH1.
  - intro H. apply IH1 in H as (q & cs1 & w1 & H & Hm1).
    now exists q, ((n, (idx p, idx q)) :: cs1), w1.
Qed.

(** The matcher fails when its continuation fails wherever it is called. *)
Lemma run_none {A} (fl : flags) (r : regex) (p : cursor) (cs : caps)
    (k : cursor -> caps -> option A) :
  (forall q cs' w, moved p q w -> k q cs' = None) -> run fl r p cs k = None.
Proof.
  intro H. destruct (run fl r p cs k) as [a|] eqn:E; [|reflexivity].
  apply run_inv in E as (q & cs' & w & E & Hm). rewrite (H q cs' w Hm) in E. discriminate.
Qed.

(** A match found at a position starts there and covers a word of the
    subject. *)
Lemma match_at_span (fl : flags) (r : regex) (p : cursor) (m : rmatch) :
  match_at fl r p = Some m ->
  m_start m = idx p /\ exists w tl, rest p = w ++ tl /\ m_end m = idx p + length w.
Proof.
  unfold match_at. intro H. apply run_inv in H as (q & cs' & w & H & [Hr Hi]).
  unfold finish in H. injection H as <-. simpl. split; [reflexivity|].
  now exists w, (rest q).
Qed.

Lemma search_from_found (fl : flags) (r : regex) (pv : option char) (s : str) (i : nat)
    (m : rmatch) :
  match_at fl r {| prev := pv; rest := s; idx := i |} = Some m ->
  search_from fl r pv s i = Some m.
Proof. intro H. destruct s; simpl; now rewrite H. Qed.


(** [re.search] finds a match when the pattern matches somewhere. *)
Lemma search_from_exists (fl : flags) (r : regex) (s' : str) :
  (forall pv i, match_at fl r {| prev := pv; rest := s'; idx := i |} <> None) ->
  forall pre pv i, search_from fl r pv (pre ++ s') i <> None.
Proof.
  intros H. induction pre as [|c pre IH]; intros pv i; simpl.
  - destruct (match_at fl r {| prev := pv; rest := s'; idx := i |}) as [m|] eqn:E.
    + now rewrite (search_from_found _ _ _ _ _ _ E).
    + now apply H in E.
  - destruct (match_at fl r _); [discriminate|apply IH].
Qed.


End MatcherProperties.

(** ** The judgment date *)

Section DateProperties.

Context {U : UnicodeData}.

Lemma valid_date_bounds (y m d : N) :
  valid_date y m d = true ->
  (1 <= y <= 9999 /\ 1 <= m <= 12 /\ 1 <= d <= 31)%N.
Proof.
  unfold valid_date. rewrite !andb_true_iff, !N.leb_le.
  intros (((((Hy1 & Hy2) & Hm1) & Hm2) & Hd1) & Hd2).
  assert (days_in_month y m <= 31)%N.
  { unfold days_in_month.
    repeat match goal with
           | |- context [if ?b then _ else _] => destruct b
           end; lia. }
  lia.
Qed.

(** A calendar date from the year 1000 on is printed as DD/MM/YYYY and can
    be read back. *)
Lemma strftime_format (y m d : N) :
  valid_date y m d = true -> (1000 <= y)%N ->
  is_dd_mm_yyyy (strftime_dmY {| year := y; month := m; day := d |}) = true
  /\ read_date (strftime_dmY {| year := y; month := m; day := d |}) = (y, m, d).
Proof.
  intros Hv H1000. apply valid_date_bounds in Hv as (Hy & Hm & Hd).
  unfold strftime_dmY, year_digits. cbn [day month year].
  replace (y <? 10)%N with false by (symmetry; apply N.ltb_ge; lia).
  replace (y <? 100)%N with false by (symmetry; apply N.ltb_ge; lia).
  replace (y <? 1000)%N with false by (symmetry; apply N.ltb_ge; lia).
  unfold pad2, pad4, digit_char, is_dd_mm_yyyy, read_date, digits_value, ascii_digit.
  cbn [app fold_left forallb].
  split.
  - rewrite !andb_true_iff, !N.leb_le, !N.eqb_eq. repeat split; lia.
  - f_equal; [f_equal|]; lia.
Qed.

(** The extractor is the textual attempt, then the numeric one. *)
Lemma extract_data_julgamento_eq (txt : str) :
  extract_data_julgamento txt =
  match data_textual txt with
  | Some dt => Some (strftime_dmY dt)
  | None => option_map strftime_dmY (data_numeral txt)
  end.
Proof.
  assert (Hn : data_numerica txt = option_map strftime_dmY (data_numeral txt)).
  { unfold data_numerica, data_numeral, data_do_numero.
    destruct (re_search no_flags re_data_num txt) as [m|]; [|reflexivity].
    destruct (make_date _ _ _); reflexivity. }
  unfold extract_data_julgamento, data_textual, data_do_texto. rewrite Hn.
  destruct (re_search IGNORECASE re_data_texto txt) as [m|]; [|reflexivity].
  destruct (dict_get _ meses) as [mes|]; [|reflexivity].
  destruct (mes =? 0)%N; [reflexivity|].
  destruct (make_date _ _ _); reflexivity.
Qed.

Lemma make_date_valid (y m d : N) (dt : date) :
  make_date y m d = Some dt -> valid_date (year dt) (month dt) (day dt) = true.
Proof.
  unfold make_date. destruct (valid_date y m d) eqn:Hv; [|discriminate].
  now intros [= <-].
Qed.

Lemma data_textual_valid (txt : str) (dt : date) :
  data_textual txt = Some dt -> valid_date (year dt) (month dt) (day dt) = true.
Proof.
  unfold data_textual, data_do_texto.
  destruct (re_search IGNORECASE re_data_texto txt) as [m|]; [|discriminate].
  destruct (dict_get _ meses) as [mes|]; [|discriminate].
  destruct (mes =? 0)%N; [discriminate|]. apply make_date_valid.
Qed.

Lemma data_numeral_valid (txt : str) (dt : date) :
  data_numeral txt = Some dt -> valid_date (year dt) (month dt) (day dt) = true.
Proof.
  unfold data_numeral, data_do_numero.
  destruct (re_search no_flags re_data_num txt) as [m|]; [|discriminate].
  apply make_date_valid.
Qed.

(** What [extract_data_julgamento] returns is a valid calendar date as
    [strftime] prints it: the date of the first match of the textual
    pattern, or else of the first match of the numeric pattern.  From the
    year 1000 on the result has the form DD/MM/YYYY and reads back as the
    date.  When the first match of neither pattern denotes a calendar date,
    the extractor returns absent. *)
Theorem judgment_date_result (txt : str) :
  (forall r, extract_data_julgamento txt = Some r ->
     exists dt, r = strftime_dmY dt
       /\ valid_date (year dt) (month dt) (day dt) = true
       /\ (data_textual txt = Some dt
           \/ (data_textual txt = None /\ data_numeral txt = Some dt))
       /\ ((1000 <= year dt)%N ->
           is_dd_mm_yyyy r = true /\ read_date r = (year dt, month dt, day dt)))
  /\ (extract_data_julgamento txt = None
      <-> data_textual txt = None /\ data_numeral txt = None).
Proof.
  rewrite extract_data_julgamento_eq. split.
  - intros r Hr.
    assert (Hfmt : forall dt, valid_date (year dt) (month dt) (day dt) = true ->
              (1000 <= year dt)%N ->
              is_dd_mm_yyyy (strftime_dmY dt) = true
              /\ read_date (strftime_dmY dt) = (year dt, month dt, day dt)).
    { intros [y m d] Hv Hy. now apply strftime_format. }
    destruct (data_textual txt) as [dt|] eqn:Et.
    + injection Hr as <-. exists dt. split; [reflexivity|].
      assert (Hv := data_textual_valid txt dt Et).
      split; [exact Hv|]. split; [now left|]. now apply Hfmt.
    + destruct (data_numeral txt) as [dt|] eqn:En; [|discriminate].
      injection Hr as <-. exists dt. split; [reflexivity|].
      assert (Hv := data_numeral_valid txt dt En).
      split; [exact Hv|]. split; [now right|]. now apply Hfmt.
  - destruct (data_textual txt) as [dt|]; [split; [discriminate|intros [H _]; discriminate]|].
    destruct (data_numeral txt) as [dt|]; simpl; split;
      try discriminate; try (intros [_ H]; discriminate); tauto.
Qed.

End DateProperties.

(** ** Normalization *)

Section NormalizeProperties.

Context {U : UnicodeData}.

(** *** Canonical ordering *)




Lemma place_starter (c : char) (acc : str) :
  combining c = 0%N -> place c acc = c :: acc.
Proof. intro H. destruct acc; simpl; [reflexivity|]. now rewrite H. Qed.



Lemma place_before_starter (x c : char) (l t : str) :
  combining c = 0%N -> place x (l ++ c :: t) = place x l ++ c :: t.
Proof.
  intro Hc. induction l as [|h l IH]; simpl.
  - rewrite Hc. replace ((0 <? combining x)%N && (combining x <? 0)%N) with false.
    + reflexivity.
    + destruct (0 <? combining x)%N; [|reflexivity]. simpl.
      symmetry. apply N.ltb_ge. lia.
  - destruct ((0 <? combining x) && (combining x <? combining h))%N; simpl;
      [now rewrite IH|reflexivity].
Qed.

Lemma fold_place_before_starter (c : char) (b l t : str) :
  combining c = 0%N ->
  fold_left (fun a x => place x a) b (l ++ c :: t)
  = fold_left (fun a x => place x a) b l ++ c :: t.
Proof.
  intro Hc. revert l. induction b as [|x b IH]; intro l; simpl; [reflexivity|].
  rewrite place_before_starter by exact Hc. apply IH.
Qed.

(** Canonical ordering does not cross a starter. *)
Lemma canonical_order_split (a : str) (c : char) (b : str) :
  combining c = 0%N ->
  canonical_order (a ++ c :: b) = canonical_order a ++ c :: canonical_order b.
Proof.
  intro Hc. unfold canonical_order. rewrite fold_left_app. simpl.
  rewrite (place_starter c _ Hc).
  rewrite (fold_place_before_starter c b [] _ Hc : fold_left _ b (c :: _) = _).
  rewrite rev_app_distr. simpl. now rewrite <- app_assoc.
Qed.

Lemma canonical_order_keeps (p : str) :
  Forall (fun c => combining c = 0%N) p -> p <> [] ->
  forall a b, canonical_order (a ++ p ++ b) = canonical_order a ++ p ++ canonical_order b.
Proof.
  induction 1 as [|c p Hc Hp IH]; intros Hne a b; [congruence|].
  simpl. rewrite canonical_order_split by exact Hc. f_equal. f_equal.
  destruct p as [|d p]; [reflexivity|].
  apply (IH ltac:(discriminate) [] b).
Qed.

(** *** Whitespace *)

Lemma cls_ws (c : char) : cls_match no_flags [CSpace] c = isspace c.
Proof. unfold cls_match. simpl. apply orb_false_r. Qed.

Lemma one_char_ext {A} (ok ok' : char -> bool) (p : cursor) (k : cursor -> option A) :
  (forall c, ok c = ok' c) -> one_char ok p k = one_char ok' p k.
Proof. intro H. unfold one_char. destruct (rest p); [reflexivity|]. now rewrite H. Qed.

Lemma run_ws {A} (p : cursor) (cs : caps) (k : cursor -> caps -> option A) :
  run no_flags ws p cs k = one_char isspace p (fun p' => k p' cs).
Proof. simpl. apply one_char_ext, cls_ws. Qed.

(** A greedy [\s*] takes the whole run of whitespace it stands before. *)
Lemma rep_ws_greedy
    (body : cursor -> caps -> (cursor -> caps -> option rmatch) -> option rmatch)
    (start : nat) (cs : caps) :
  (forall p cs' k', body p cs' k' = one_char isspace p (fun p' => k' p' cs')) ->
  forall (s : str) (budget : nat) (pv : option char) (i : nat),
    length s <= budget ->
    rep_loop body true (finish start) budget 0 {| prev := pv; rest := s; idx := i |} cs
    = Some {| m_start := start; m_end := i + lead s; m_caps := cs |}.
Proof.
  intro Hbody. induction s as [|c s IH]; intros budget pv i Hb.
  - simpl lead. rewrite Nat.add_0_r. destruct budget; [reflexivity|].
    simpl. now rewrite Hbody.
  - destruct budget as [|b]; [simpl in Hb; lia|].
    simpl rep_loop. rewrite Hbody. unfold one_char. cbn [rest].
    simpl lead. destruct (isspace c).
    + unfold advance. cbn [idx]. rewrite IH by (simpl in Hb; lia).
      rewrite Nat.add_succ_r. reflexivity.
    + unfold finish. cbn [idx]. rewrite Nat.add_0_r. reflexivity.
Qed.

Lemma match_ws_plus (pv : option char) (s : str) (i : nat) :
  match_at no_flags (plus ws) {| prev := pv; rest := s; idx := i |} =
  match lead s with
  | O => None
  | S n => Some {| m_start := i; m_end := i + S n; m_caps := [] |}
  end.
Proof.
  unfold match_at, plus. cbn [run]. unfold budget_of. cbn [rest idx].
  destruct s as [|c s]; [reflexivity|].
  cbn [length rep_loop]. rewrite run_ws. unfold one_char. cbn [rest].
  simpl lead. destruct (isspace c); [|reflexivity].
  unfold advance. cbn [idx].
  rewrite (rep_ws_greedy _ i [] (fun p cs' k' => run_ws p cs' k')) by lia.
  now rewrite Nat.add_succ_r.
Qed.

Lemma collapse_true_nonspace (s : str) :
  lead s = 0 -> collapse_from true s = collapse_from false s.
Proof. destruct s as [|c s]; simpl; [reflexivity|]. destruct (isspace c); [discriminate|reflexivity]. Qed.

Lemma sub_ws_collapse (s : str) :
  forall pv i,
    sub_from no_flags (plus ws) (u " ") pv s i 0 = collapse_from false s
    /\ sub_from no_flags (plus ws) (u " ") pv s i (lead s) = collapse_from true s.
Proof.
  induction s as [|c s IH]; intros pv i; [split; reflexivity|].
  assert (HA : sub_from no_flags (plus ws) (u " ") pv (c :: s) i 0
               = collapse_from false (c :: s)).
  { simpl sub_from. rewrite match_ws_plus. simpl lead. simpl collapse_from.
    destruct (isspace c).
    - simpl m_end. replace (i + S (lead s) - i) with (S (lead s)) by lia.
      destruct (IH (Some c) (S i)) as [_ ->]. reflexivity.
    - destruct (IH (Some c) (S i)) as [-> _]. reflexivity. }
  split; [exact HA|].
  destruct (isspace c) eqn:E.
  - simpl lead. rewrite E. simpl sub_from. simpl collapse_from. rewrite E.
    apply IH.
  - replace (lead (c :: s)) with 0 by (simpl; now rewrite E).
    rewrite HA. symmetry. apply collapse_true_nonspace. simpl. now rewrite E.
Qed.

(** [re.sub(r'\s+', ' ', s)] replaces every run of whitespace by one
    space. *)
Lemma re_sub_ws (s : str) :
  re_sub no_flags (plus ws) (u " ") s = collapse_from false s.
Proof. unfold re_sub. apply sub_ws_collapse. Qed.

Lemma normalize_text_eq (s : str) :
  normalize_text s =
  match s with
  | [] => []
  | _ => strip (collapse_from false (filter (fun ch => negb (category_Mn ch)) (nfd s)))
  end.
Proof. destruct s; [reflexivity|]. unfold normalize_text. now rewrite re_sub_ws. Qed.

End NormalizeProperties.

Section NormalizeText.

Context {U : UnicodeData}.





Lemma collapse_app_nonspace (c : char) (x r : str) :
  isspace c = false ->
  forall b, collapse_from b (x ++ c :: r) = collapse_from b x ++ c :: collapse_from false r.
Proof.
  intro Hc. induction x as [|d x IH]; intro b; simpl.
  - now rewrite Hc.
  - destruct (isspace d); [destruct b|]; simpl; now rewrite IH.
Qed.

Lemma spaced_ok_collapse (p y : str) :
  spaced_ok p = true -> collapse_from false (p ++ y) = p ++ collapse_from false y.
Proof.
  induction p as [|c p IH]; simpl; [reflexivity|].
  destruct (isspace c) eqn:Ec.
  - intro H. apply andb_true_iff in H as [H Hp]. apply andb_true_iff in H as [Hc Hd].
    apply N.eqb_eq in Hc. subst c.
    destruct p as [|d p]; [discriminate|]. apply negb_true_iff in Hd.
    f_equal. specialize (IH Hp). simpl in IH. rewrite Hd in IH.
    simpl. now rewrite Hd.
  - intro Hp. now rewrite IH.
Qed.

Lemma spaced_ok_last (p : str) :
  spaced_ok p = true -> p <> [] -> exists q z, p = q ++ [z] /\ isspace z = false.
Proof.
  induction p as [|c p IH]; [congruence|]. simpl. intros H _.
  destruct p as [|d p].
  - destruct (isspace c) eqn:Ec.
    + rewrite andb_false_r in H. discriminate.
    + now exists [], c.
  - destruct IH as (q & z & E & Hz); [|discriminate|].
    + destruct (isspace c); [|exact H]. now apply andb_true_iff in H as [_ H].
    + exists (c :: q), z. split; [|exact Hz]. simpl. now rewrite E.
Qed.

(** None of the steps of [normalize_text] touches a phrase of plain
    characters inside a text. *)
Lemma normalize_text_keeps (p pre post : str) :
  Forall plain p -> phrase p = true ->
  exists a b, normalize_text (pre ++ p ++ post) = a ++ p ++ b.
Proof.
  intros Hplain Hphrase.
  destruct p as [|c p]; [discriminate|].
  unfold phrase in Hphrase. apply andb_true_iff in Hphrase as [Hc Hok].
  apply negb_true_iff in Hc.
  rewrite normalize_text_eq.
  destruct (pre ++ (c :: p) ++ post) as [|x0 l0] eqn:E0;
    [destruct pre; discriminate|]. rewrite <- E0. clear E0 x0 l0.
  (* decomposition and ordering *)
  assert (Hd : flat_map decomposition (c :: p) = c :: p).
  { clear Hok Hc. induction Hplain as [|d q [Hd _] _ IH]; [reflexivity|].
    simpl. now rewrite Hd, IH. }
  assert (Hs : Forall (fun d => combining d = 0%N) (c :: p)).
  { eapply Forall_impl; [|exact Hplain]. now intros d (_ & H & _). }
  assert (Hm : filter (fun ch => negb (category_Mn ch)) (c :: p) = c :: p).
  { clear Hok Hc Hd Hs. induction Hplain as [|d q (_ & _ & Hd & _) _ IH]; [reflexivity|].
    simpl. now rewrite Hd, IH. }
  unfold nfd. rewrite !flat_map_app, Hd.
  rewrite (canonical_order_keeps (c :: p) Hs ltac:(discriminate)).
  rewrite !filter_app, Hm.
  set (x := filter _ (canonical_order (flat_map decomposition pre))).
  set (y := filter _ (canonical_order (flat_map decomposition post))).
  (* whitespace *)
  change (x ++ (c :: p) ++ y) with (x ++ c :: (p ++ y)).
  rewrite (collapse_app_nonspace c x (p ++ y) Hc).
  assert (Hp : spaced_ok p = true).
  { simpl in Hok. now rewrite Hc in Hok. }
  rewrite (spaced_ok_collapse p y Hp).
  (* the ends *)
  unfold strip. rewrite (lstrip_app_nonspace _ c _ Hc).
  destruct (spaced_ok_last (c :: p) Hok ltac:(discriminate)) as (q & z & Eq & Hz).
  change (lstrip (collapse_from false x) ++ c :: p ++ collapse_from false y)
    with (lstrip (collapse_from false x) ++ (c :: p) ++ collapse_from false y).
  rewrite Eq, <- !app_assoc. simpl.
  rewrite app_assoc. rewrite (rstrip_app_nonspace _ z _ Hz).
  exists (lstrip (collapse_from false x)), (rstrip (collapse_from false y)).
  rewrite <- !app_assoc. reflexivity.
Qed.

Lemma normalize_upper_keeps (p pre post : str) :
  Forall plain p -> phrase p = true ->
  exists a b, normalize_upper (pre ++ p ++ post) = a ++ p ++ b.
Proof.
  intros Hplain Hphrase.
  destruct (normalize_text_keeps p pre post Hplain Hphrase) as (a & b & E).
  unfold normalize_upper.
  destruct (pre ++ p ++ post) as [|x0 l0] eqn:E0.
  - destruct p; [discriminate|]. destruct pre; discriminate.
  - rewrite E. unfold upper. rewrite !flat_map_app.
    exists (flat_map upper_full a), (flat_map upper_full b). f_equal. f_equal.
    clear -Hplain. induction Hplain as [|d q (_ & _ & _ & Hd) _ IH]; [reflexivity|].
    simpl. now rewrite Hd, IH.
Qed.

End NormalizeText.

(** ** Normalization twice *)

Section NormalizeTwice.

Context {U : UnicodeData}.

















End NormalizeTwice.

(** ** The accented role *)



Section AccentedRole.

Context {U : UnicodeData}.
Variable get_close_matches : str -> list str -> list str.






End AccentedRole.

(** ** Lines and labels *)








(** ** The bank detector *)



Section BankDetector.

Context {U : UnicodeData}.
Variable get_close_matches : str -> list str -> list str.

End BankDetector.

(** ** A date between texts without digits *)




Section SurroundedDate.

Context {U : UnicodeData}.





















End SurroundedDate.


(** ** The scenarios of the specification *)

Lemma clause_negam_plain : Forall (@plain latin_ucd) clause_negam.
Proof.
  let l := eval vm_compute in clause_negam in change (Forall (@plain latin_ucd) l).
  repeat constructor.
Qed.

Lemma clause_negam_phrase : phrase clause_negam = true.
Proof. vm_compute. reflexivity. Qed.

(** A clause that contains NEGAM PROVIMENTO AO RECURSO is of the kind
    negar_provimento, whatever stands around the phrase. *)
Lemma negam_matched_outcome (pre post : str) :
  @matched_outcome latin_ucd (@normalize_upper latin_ucd (pre ++ clause_negam ++ post))
  = Some (u "negar_provimento").
Proof.
  destruct (@normalize_upper_keeps latin_ucd clause_negam pre post
              clause_negam_plain clause_negam_phrase) as (a & b & E).
  rewrite E. unfold matched_outcome, OUTCOME_PATTERNS. cbn [find snd existsb].
  assert (H : is_some (@re_search latin_ucd IGNORECASE
                (seqs [lits (u "NEGA"); opt (Cls [CLit (chr "M"); CLit (chr "R")]);
                       lits (u " PROVIMENTO")])
                (a ++ clause_negam ++ b)) = true).
  { unfold re_search.
    destruct (search_from IGNORECASE _ None (a ++ clause_negam ++ b) 0) eqn:Es;
      [reflexivity|].
    exfalso. revert Es. apply search_from_exists. intros pv i.
    vm_compute. discriminate. }
  rewrite H. vm_compute. reflexivity.
Qed.

(** C2. For every operative clause that contains NEGAM PROVIMENTO AO
    RECURSO, the parties RECORRENTE = "Banco Itaú Unibanco" and the bank name
    "Banco Itaú Unibanco", the classifier returns 'contraria': the clause is
    of the kind negar_provimento, the first token of the bank name puts the
    bank in the role RECORRENTE, and a negative disposition is against a
    bank that appeals. *)
Theorem negam_provimento_contraria (pre post : str) :
  let dispositivo := pre ++ clause_negam ++ post in
  let partes := [(u "RECORRENTE", Some banco_itau)] in
  @infer_decision_for_bank latin_ucd (Some dispositivo) partes (Some banco_itau)
    = Return (Some (u "contraria"))
  /\ @matched_outcome latin_ucd (@normalize_upper latin_ucd dispositivo)
     = Some (u "negar_provimento")
  /\ @first_token banco_itau = Return (u "Banco")
  /\ @roles_of_bank latin_ucd banco_itau (@normalize_upper latin_ucd (u "Banco")) partes
     = [u "RECORRENTE"].
Proof.
  cbv zeta. split; [|split; [apply negam_matched_outcome|split; vm_compute; reflexivity]].
  unfold infer_decision_for_bank.
  replace (truthy (Some (pre ++ clause_negam ++ post))) with true
    by (destruct pre; reflexivity).
  cbn [negb or_empty]. rewrite negam_matched_outcome.
  generalize (@normalize_upper latin_ucd (pre ++ clause_negam ++ post)). intro dn.
  vm_compute. reflexivity.
Qed.

(** C5, as the specification has it, fails: the name kept for AGRAVANTE is
    not "Banco XYZ S.A. Continuação do nome", because the names are
    normalized and lose their accents. *)
Lemma partes_example_accents_lost :
  dict_get (u "AGRAVANTE") (@extract_partes_from_block latin_ucd block_example)
  <> Some (Some (u "Banco XYZ S.A. Continuação do nome")).
Proof. vm_compute. discriminate. Qed.

(** C5, amended. On the block "AGRAVANTE: Banco XYZ S.A." / "Continuação do
    nome" / "AGRAVADO: Fulano de Tal" the party extractor yields AGRAVANTE =
    "Banco XYZ S.A. Continuacao do nome", the continuation line joined by one
    space and the whole name stripped of its accents, and AGRAVADO = "Fulano
    de Tal", and no other role. *)
Theorem partes_example :
  @extract_partes_from_block latin_ucd block_example
  = [(u "AGRAVANTE", Some (u "Banco XYZ S.A. Continuacao do nome"));
     (u "AGRAVADO", Some (u "Fulano de Tal"))].
Proof. vm_compute. reflexivity. Qed.



(** C6. On "JULGADO: 28/08/0999" the numeric pattern matches, day 28 of
    month 8 of the year 999 is a calendar date, and the extractor returns
    "28/08/999": nine characters, the year on three digits, not a string
    DD/MM/YYYY as the function's documentation and the claim have it. *)
Theorem judgment_date_short_year :
  @extract_data_julgamento latin_ucd text_short_year = Some (u "28/08/999")
  /\ is_dd_mm_yyyy (u "28/08/999") = false
  /\ @data_numeral latin_ucd text_short_year = Some {| year := 999; month := 8; day := 28 |}.
Proof. split; [|split]; vm_compute; reflexivity. Qed.


(** On "PAUTA: 01/08/2023 JULGADO: 28/08/2023", a text that the comment on
    the numeric pattern names, the extractor returns the first date, that
    of the PAUTA. *)
Lemma pauta_date_returned :
  @extract_data_julgamento latin_ucd text_pauta = Some (u "01/08/2023").
Proof. vm_compute. reflexivity. Qed.


(** ** The properties at concrete inputs *)

Lemma firstn_incl {A} (n : nat) (l : list A) (x : A) : In x (firstn n l) -> In x l.
Proof.
  revert l. induction n as [|n IH]; intros [|y l]; simpl; try tauto.
  intros [H|H]; [now left|right; now apply IH].
Qed.

Lemma exact_matches_candidates : returns_candidates exact_matches.
Proof.
  intros w l x H. unfold exact_matches in H. apply firstn_incl in H.
  now apply filter_In in H.
Qed.

Lemma latin_titles_not_blank : @titles_not_blank latin_ucd.
Proof.
  intros b H. unfold COMMON_BANKS in H. simpl in H.
  repeat (destruct H as [<-|H]; [vm_compute; discriminate|]). destruct H.
Qed.

Lemma extract_record_schema_witness :
  exists r, @extract_acordao_data latin_ucd exact_matches text_itau = Return r
            /\ keys r = schema_keys /\ NoDup (keys r) /\ length (keys r) = 15.
Proof.
  apply (@extract_record_schema latin_ucd exact_matches text_itau).
  - exact exact_matches_candidates.
  - exact latin_titles_not_blank.
Defined.

Lemma extract_blank_text_witness :
  @extract_acordao_data latin_ucd exact_matches [32; 10; 9; 32]%N = Return default_record
  /\ forall k, In k schema_keys -> dict_get k default_record = Some None.
Proof.
  apply (@extract_blank_text latin_ucd exact_matches [32; 10; 9; 32]%N).
  intros c H. simpl in H.
  repeat (destruct H as [<-|H]; [reflexivity|]). destruct H.
Defined.

(** *** The Latin database *)














